(** * detect-ec2: a shallow embedding of [src/detect.js]

    The detector talks to the metadata service through [makeRequest].  We
    model the network as an oracle [Transport]: given the requests already
    issued (oldest first) and the next request, it says whether the request
    resolves with a status and a body, or rejects (network error or
    timeout).  Because the oracle sees the history, two requests that look
    identical may behave differently, so every combination of per-request
    outcomes is covered.

    Async code is modelled with a state-and-exception monad: the state is
    the list of issued requests, and a rejected promise is a thrown value
    that [try ... catch] blocks can recover from. *)

From Stdlib Require Import Ascii String List ZArith Bool Lia.
Import ListNotations.
Open Scope string_scope.
Open Scope Z_scope.
Set Warnings "-register-all".

(** ** JavaScript values *)

(** The values the detector builds: an object is the ordered list of its
    own keys and values (insertion order, as [Object.keys] reports it). *)
Inductive jsval : Type :=
| JNull : jsval
| JBool : bool -> jsval
| JStr : string -> jsval
| JObj : list (string * jsval) -> jsval.

(** JavaScript truthiness of the values above. *)
Definition truthy (v : jsval) : bool :=
  match v with
  | JNull => false
  | JBool b => b
  | JStr s => negb (String.eqb s "")
  | JObj _ => true
  end.

(** [obj[k] = v]: overwrite the key in place if present, else append it. *)
Fixpoint js_set (o : list (string * jsval)) (k : string) (v : jsval)
  : list (string * jsval) :=
  match o with
  | [] => [(k, v)]
  | (k', v') :: o' =>
      if String.eqb k k' then (k, v) :: o' else (k', v') :: js_set o' k v
  end.

(** [obj[k]]: [None] when the key is absent. *)
Fixpoint js_get (o : list (string * jsval)) (k : string) : option jsval :=
  match o with
  | [] => None
  | (k', v') :: o' => if String.eqb k k' then Some v' else js_get o' k
  end.

(** ** Transport *)

Record Request : Type := mkRequest {
  req_path : string;
  req_timeout : Z;
  req_headers : list (string * string);
  req_method : string
}.

(** Outcome of one request: resolved with [{status, body}], or rejected. *)
Inductive Outcome : Type :=
| Resp : Z -> string -> Outcome
| Fail : Outcome.

Definition Transport : Type := list Request -> Request -> Outcome.

(** ** The state-and-exception monad *)

Inductive Res (A : Type) : Type :=
| Ok : A -> Res A
| Thrown : string -> Res A.
Arguments Ok {A} _.
Arguments Thrown {A} _.

Definition M (A : Type) : Type := list Request -> Res A * list Request.

Definition ret {A} (a : A) : M A := fun h => (Ok a, h).

Definition bind {A B} (m : M A) (f : A -> M B) : M B :=
  fun h => match m h with
           | (Ok a, h') => f a h'
           | (Thrown e, h') => (Thrown e, h')
           end.

Notation "x <- m ;; k" := (bind m (fun x => k))
  (at level 61, m at next level, right associativity).

(** [try { m } catch { handler }] *)
Definition try_catch {A} (m : M A) (handler : M A) : M A :=
  fun h => match m h with
           | (Ok a, h') => (Ok a, h')
           | (Thrown _, h') => handler h'
           end.

(** ** The detector *)

Definition METADATA_IP : string := "169.254.169.254".

Definition TOKEN_PATH : string := "/latest/api/token".
Definition META_PATH : string := "/latest/meta-data/".
Definition TTL_HEADER : string := "X-aws-ec2-metadata-token-ttl-seconds".
Definition TOKEN_HEADER : string := "X-aws-ec2-metadata-token".

Section Detector.

Variable T : Transport.

(** [makeRequest(options, timeout, headers, method)] for a transport on
    which every promise settles: the issued request is appended to the
    history; the promise resolves with [{status, body}] or rejects (error
    event, or the timeout handler's [Error]).  [Async] below follows the
    listeners event by event, including a promise that never settles. *)
Definition makeRequest (path : string) (timeout : Z)
    (headers : list (string * string)) (method : string) : M (Z * string) :=
  fun h =>
    let r := mkRequest path timeout headers method in
    match T h r with
    | Resp status body => (Ok (status, body), (h ++ [r])%list)
    | Fail => (Thrown "Request timeout", (h ++ [r])%list)
    end.

(** [tryIMDSv1(timeout)] *)
Definition tryIMDSv1 (timeout : Z) : M bool :=
  try_catch
    (res <- makeRequest META_PATH timeout [] "GET" ;;
     ret (Z.eqb (fst res) 200))
    (ret false).

(** [tryIMDSv2(timeout)] *)
Definition tryIMDSv2 (timeout : Z) : M bool :=
  try_catch
    (tokenRes <- makeRequest TOKEN_PATH timeout [(TTL_HEADER, "21600")] "PUT" ;;
     if negb (Z.eqb (fst tokenRes) 200) || negb (truthy (JStr (snd tokenRes)))
     then ret false
     else
       res <- makeRequest META_PATH timeout [(TOKEN_HEADER, snd tokenRes)] "GET" ;;
       ret (Z.eqb (fst res) 200))
    (ret false).

(** The fixed field list of [getMetadata]. *)
Definition fields : list string :=
  ["instance-id"; "instance-type"; "ami-id"; "local-ipv4"; "public-ipv4"].

(** [const headers = token ? { 'X-aws-ec2-metadata-token': token } : {};]
    ([token] is [null] or the body string of the token response). *)
Definition token_headers (token : jsval) : list (string * string) :=
  match token with
  | JStr s => if truthy token then [(TOKEN_HEADER, s)] else []
  | _ => []
  end.

(** The token step of [getMetadata]: [let token = null; try { ... } catch {}]. *)
Definition getToken (timeout : Z) : M jsval :=
  try_catch
    (tokenRes <- makeRequest TOKEN_PATH timeout [(TTL_HEADER, "21600")] "PUT" ;;
     ret (if Z.eqb (fst tokenRes) 200 then JStr (snd tokenRes) else JNull))
    (ret JNull).

(** The [for (const field of fields)] loop, threading the [metadata]
    object. *)
Fixpoint fetchFields (timeout : Z) (headers : list (string * string))
    (fs : list string) (metadata : list (string * jsval))
  : M (list (string * jsval)) :=
  match fs with
  | [] => ret metadata
  | field :: fs' =>
      metadata' <-
        try_catch
          (res <- makeRequest (META_PATH ++ field) timeout headers "GET" ;;
           ret (if Z.eqb (fst res) 200
                then js_set metadata field (JStr (snd res))
                else metadata))
          (ret metadata) ;;
      fetchFields timeout headers fs' metadata'
  end.

(** [getMetadata(timeout)] *)
Definition getMetadata (timeout : Z) : M jsval :=
  try_catch
    (token <- getToken timeout ;;
     let headers := token_headers token in
     metadata <- fetchFields timeout headers fields [] ;;
     ret (if Nat.ltb 0 (length metadata) then JObj metadata else JNull))
    (ret JNull).

(** The options object of [detectEC2]: [timeout] is [None] when the key is
    absent; [verbose] is the truthiness of [options.verbose]. *)
Record Options : Type := mkOptions {
  opt_timeout : option Z;
  opt_verbose : bool
}.

(** [options.timeout || 1000] *)
Definition effective_timeout (o : Options) : Z :=
  match opt_timeout o with
  | Some t => if Z.eqb t 0 then 1000 else t
  | None => 1000
  end.

(** One branch of [detectEC2] after a successful probe. *)
Definition succeed (version : string) (timeout : Z) (verbose : bool) : M jsval :=
  let result := [("isEC2", JBool true); ("imdsVersion", JStr version)] in
  if verbose then
    m <- getMetadata timeout ;;
    ret (JObj (js_set result "metadata" m))
  else ret (JObj result).

(** [detectEC2(options)] *)
Definition detectEC2 (o : Options) : M jsval :=
  let timeout := effective_timeout o in
  let verbose := opt_verbose o in
  v2 <- tryIMDSv2 timeout ;;
  if v2 then succeed "v2" timeout verbose
  else
    v1 <- tryIMDSv1 timeout ;;
    if v1 then succeed "v1" timeout verbose
    else ret (JObj [("isEC2", JBool false)]).

End Detector.

(** ** The requests the detector issues *)

Definition put_token (t : Z) : Request :=
  mkRequest TOKEN_PATH t [(TTL_HEADER, "21600")] "PUT".
Definition get_root (hd : list (string * string)) (t : Z) : Request :=
  mkRequest META_PATH t hd "GET".
Definition get_field (hd : list (string * string)) (t : Z) (f : string)
  : Request :=
  mkRequest (META_PATH ++ f) t hd "GET".

(** ** [makeRequest]'s promise, event by event *)

(** The detector again, on the events Node's HTTP client emits for each
    request.  [makeRequest] listens to the response's ['data'] and ['end']
    and to the request's ['error'] and ['timeout']; a promise resolved or
    rejected once ignores later calls.  An [await] on a promise that never
    settles never resumes: such a run is [None]. *)
Module Async.

Inductive HttpEvent : Type :=
| ev_response : Z -> HttpEvent     (* the response callback runs *)
| ev_data : string -> HttpEvent    (* res 'data' *)
| ev_end : HttpEvent               (* res 'end' *)
| ev_aborted : HttpEvent           (* res 'aborted' *)
| ev_res_close : HttpEvent         (* res 'close' *)
| ev_req_error : HttpEvent         (* req 'error' *)
| ev_req_timeout : HttpEvent       (* req 'timeout' *)
| ev_req_close : HttpEvent.        (* req 'close' *)

Inductive PromiseState : Type :=
| Pending : PromiseState
| Resolved : Z -> string -> PromiseState
| Rejected : PromiseState.

(** [res.statusCode] once the response callback has run, its [body], and
    the promise. *)
Record ReqState : Type := mkReqState {
  rs_status : option Z;
  rs_body : string;
  rs_promise : PromiseState
}.

(** [resolve]/[reject] on a promise: only the first call counts. *)
Definition settle (p q : PromiseState) : PromiseState :=
  match p with
  | Pending => q
  | _ => p
  end.

Definition on_event (st : ReqState) (e : HttpEvent) : ReqState :=
  match e with
  | ev_response s => mkReqState (Some s) "" (rs_promise st)
  | ev_data chunk =>
      match rs_status st with
      | Some _ => mkReqState (rs_status st) (rs_body st ++ chunk) (rs_promise st)
      | None => st
      end
  | ev_end =>
      match rs_status st with
      | Some s => mkReqState (rs_status st) (rs_body st)
                    (settle (rs_promise st) (Resolved s (rs_body st)))
      | None => st
      end
  | ev_req_error | ev_req_timeout =>
      mkReqState (rs_status st) (rs_body st) (settle (rs_promise st) Rejected)
  | ev_aborted | ev_res_close | ev_req_close => st
  end.

Definition promise_of (evs : list HttpEvent) : PromiseState :=
  rs_promise (fold_left on_event evs (mkReqState None "" Pending)).

(** The events of each request, given the requests before it. *)
Definition WireTransport : Type := list Request -> Request -> list HttpEvent.

(** The peer closes the connection after the response headers and some of
    the body: Node destroys the response ('aborted', then 'close', without
    'error' since it has no listener, and no 'end'), the request emits
    'close' but no 'error' because its response had arrived, and the
    socket's timeout goes with the socket. *)
Definition closed_after_headers (status : Z) (chunks : list string)
  : list HttpEvent :=
  ([ev_response status] ++ map ev_data chunks ++
   [ev_aborted; ev_res_close; ev_req_close])%list.

Definition AM (A : Type) : Type := list Request -> option (Res A) * list Request.

Definition aret {A} (a : A) : AM A := fun h => (Some (Ok a), h).

Definition abind {A B} (m : AM A) (f : A -> AM B) : AM B :=
  fun h => match m h with
           | (Some (Ok a), h') => f a h'
           | (Some (Thrown e), h') => (Some (Thrown e), h')
           | (None, h') => (None, h')
           end.

Notation "x <~ m ;; k" := (abind m (fun x => k))
  (at level 61, m at next level, right associativity).

Definition atry_catch {A} (m : AM A) (handler : AM A) : AM A :=
  fun h => match m h with
           | (Some (Ok a), h') => (Some (Ok a), h')
           | (Some (Thrown _), h') => handler h'
           | (None, h') => (None, h')
           end.

Section AsyncDetector.

Variable W : WireTransport.

Definition makeRequest (path : string) (timeout : Z)
    (headers : list (string * string)) (method : string) : AM (Z * string) :=
  fun h =>
    let r := mkRequest path timeout headers method in
    match promise_of (W h r) with
    | Pending => (None, (h ++ [r])%list)
    | Resolved status body => (Some (Ok (status, body)), (h ++ [r])%list)
    | Rejected => (Some (Thrown "Request timeout"), (h ++ [r])%list)
    end.

Definition tryIMDSv1 (timeout : Z) : AM bool :=
  atry_catch
    (res <~ makeRequest META_PATH timeout [] "GET" ;;
     aret (Z.eqb (fst res) 200))
    (aret false).

Definition tryIMDSv2 (timeout : Z) : AM bool :=
  atry_catch
    (tokenRes <~ makeRequest TOKEN_PATH timeout [(TTL_HEADER, "21600")] "PUT" ;;
     if negb (Z.eqb (fst tokenRes) 200) || negb (truthy (JStr (snd tokenRes)))
     then aret false
     else
       res <~ makeRequest META_PATH timeout [(TOKEN_HEADER, snd tokenRes)] "GET" ;;
       aret (Z.eqb (fst res) 200))
    (aret false).

Definition getToken (timeout : Z) : AM jsval :=
  atry_catch
    (tokenRes <~ makeRequest TOKEN_PATH timeout [(TTL_HEADER, "21600")] "PUT" ;;
     aret (if Z.eqb (fst tokenRes) 200 then JStr (snd tokenRes) else JNull))
    (aret JNull).

Fixpoint fetchFields (timeout : Z) (headers : list (string * string))
    (fs : list string) (metadata : list (string * jsval))
  : AM (list (string * jsval)) :=
  match fs with
  | [] => aret metadata
  | field :: fs' =>
      metadata' <~
        atry_catch
          (res <~ makeRequest (META_PATH ++ field) timeout headers "GET" ;;
           aret (if Z.eqb (fst res) 200
                 then js_set metadata field (JStr (snd res))
                 else metadata))
          (aret metadata) ;;
      fetchFields timeout headers fs' metadata'
  end.

Definition getMetadata (timeout : Z) : AM jsval :=
  atry_catch
    (token <~ getToken timeout ;;
     let headers := token_headers token in
     metadata <~ fetchFields timeout headers fields [] ;;
     aret (if Nat.ltb 0 (length metadata) then JObj metadata else JNull))
    (aret JNull).

Definition succeed (version : string) (timeout : Z) (verbose : bool) : AM jsval :=
  let result := [("isEC2", JBool true); ("imdsVersion", JStr version)] in
  if verbose then
    m <~ getMetadata timeout ;;
    aret (JObj (js_set result "metadata" m))
  else aret (JObj result).

Definition detectEC2 (o : Options) : AM jsval :=
  let timeout := effective_timeout o in
  let verbose := opt_verbose o in
  v2 <~ tryIMDSv2 timeout ;;
  if v2 then succeed "v2" timeout verbose
  else
    v1 <~ tryIMDSv1 timeout ;;
    if v1 then succeed "v1" timeout verbose
    else aret (JObj [("isEC2", JBool false)]).

End AsyncDetector.

(** Every promise of [W] settles. *)
Definition settles (W : WireTransport) : Prop :=
  forall h r, promise_of (W h r) <> Pending.

(** The outcomes of [W] as a [Transport]. *)
Definition coarse (W : WireTransport) : Transport :=
  fun h r =>
    match promise_of (W h r) with
    | Resolved s b => Resp s b
    | _ => Fail
    end.

(** An asynchronous computation that runs as a synchronous one. *)
Definition agree {A} (am : AM A) (m : M A) : Prop :=
  forall h, am h = (Some (fst (m h)), snd (m h)).

(** A host whose token PUT connection is closed after the response
    headers; every other request answers 200 with an empty body. *)
Definition aborted_put_transport : WireTransport :=
  fun _ r =>
    if String.eqb (req_path r) TOKEN_PATH then closed_after_headers 200 ["AQAE"]
    else [ev_response 200; ev_end].

End Async.

(** ** Reference descriptions of metadata collection, from the spec *)

(** "with the token header attached if a token was obtained": a token is
    obtained when the PUT answers 200 with a non-empty body. *)
Definition spec_headers (T : Transport) (h : list Request) (t : Z)
  : list (string * string) :=
  match T h (put_token t) with
  | Resp s b =>
      if Z.eqb s 200 && negb (String.eqb b "") then [(TOKEN_HEADER, b)] else []
  | Fail => []
  end.

(** The fields, in order, whose GET answers 200, each with its raw body;
    [h] is the history when the first field is requested. *)
Fixpoint collect_spec (T : Transport) (h : list Request) (t : Z)
    (hd : list (string * string)) (fs : list string)
  : list (string * jsval) :=
  match fs with
  | [] => []
  | f :: fs' =>
      let r := get_field hd t f in
      match T h r with
      | Resp s b => if Z.eqb s 200 then [(f, JStr b)] else []
      | Fail => []
      end ++ collect_spec T (h ++ [r])%list t hd fs'
  end.

(** A mapping when some field succeeded, [null] otherwise. *)
Definition meta_of (c : list (string * jsval)) : jsval :=
  match c with
  | [] => JNull
  | _ => JObj c
  end.

Definition metadata_spec (T : Transport) (h : list Request) (t : Z) : jsval :=
  meta_of (collect_spec T (h ++ [put_token t])%list t (spec_headers T h t) fields).

(** "The IMDSv2 path fails", case by case, together with the history once
    the failed attempt is over. *)
Inductive v2_fails (T : Transport) (t : Z) (h : list Request)
  : list Request -> Prop :=
| v2_token_rejected :
    T h (put_token t) = Fail ->
    v2_fails T t h (h ++ [put_token t])%list
| v2_token_not_200 : forall s b,
    T h (put_token t) = Resp s b -> s <> 200 ->
    v2_fails T t h (h ++ [put_token t])%list
| v2_token_empty :
    T h (put_token t) = Resp 200 "" ->
    v2_fails T t h (h ++ [put_token t])%list
| v2_get_rejected : forall tok,
    T h (put_token t) = Resp 200 tok -> tok <> "" ->
    T (h ++ [put_token t])%list (get_root [(TOKEN_HEADER, tok)] t) = Fail ->
    v2_fails T t h (h ++ [put_token t; get_root [(TOKEN_HEADER, tok)] t])
| v2_get_not_200 : forall tok s b,
    T h (put_token t) = Resp 200 tok -> tok <> "" ->
    T (h ++ [put_token t])%list (get_root [(TOKEN_HEADER, tok)] t) = Resp s b ->
    s <> 200 ->
    v2_fails T t h (h ++ [put_token t; get_root [(TOKEN_HEADER, tok)] t])%list.

(** A probe fails: the request rejects or answers with a status other
    than 200. *)
Definition probe_fails (o : Outcome) : Prop :=
  match o with
  | Resp s _ => s <> 200
  | Fail => True
  end.

(** ** [setEnv] *)

(** [String(v)] for a property read, [None] standing for [undefined]. *)
Definition js_to_string (v : option jsval) : string :=
  match v with
  | None => "undefined"
  | Some JNull => "null"
  | Some (JBool true) => "true"
  | Some (JBool false) => "false"
  | Some (JStr s) => s
  | Some (JObj _) => "[object Object]"
  end.

(** Truthiness of a property read ([undefined] is falsy). *)
Definition truthy_opt (v : option jsval) : bool :=
  match v with
  | Some v => truthy v
  | None => false
  end.

(** [result.k]: reading a property of the detection result. *)
Definition prop (result : jsval) (k : string) : option jsval :=
  match result with
  | JObj o => js_get o k
  | _ => None
  end.

(** [v[k]] on a value read from the result.  The source only reads it
    under [if (result.metadata)], so [null] and [undefined] (on which
    JavaScript would throw) never reach it. *)
Definition js_member (v : option jsval) (k : string) : option jsval :=
  match v with
  | Some (JObj o) => js_get o k
  | _ => None
  end.

(** [process.env] of the main thread on a POSIX system: the C environment,
    names and values in assignment order. *)
Definition Env : Type := list (string * string).

Definition NUL : ascii := ascii_of_nat 0.

(** The C string Node passes to [setenv]/[getenv] for a JavaScript string:
    everything before the first NUL character. *)
Fixpoint c_string (s : string) : string :=
  match s with
  | EmptyString => EmptyString
  | String c s' => if Ascii.eqb c NUL then EmptyString else String c (c_string s')
  end.

Fixpoint has_char (c : ascii) (s : string) : bool :=
  match s with
  | EmptyString => false
  | String c' s' => Ascii.eqb c c' || has_char c s'
  end.

(** [setenv(name, value, 1)] refuses (EINVAL) an empty name or a name
    holding ['=']. *)
Definition setenv_ok (name : string) : bool :=
  negb (String.eqb name "") && negb (has_char "="%char name).

(** The entry of [setenv]: overwrite in place if present, else append. *)
Fixpoint env_put (env : Env) (k v : string) : Env :=
  match env with
  | [] => [(k, v)]
  | (k', v') :: env' =>
      if String.eqb k k' then (k, v) :: env' else (k', v') :: env_put env' k v
  end.

Fixpoint env_lookup (env : Env) (k : string) : option string :=
  match env with
  | [] => None
  | (k', v') :: env' => if String.eqb k k' then Some v' else env_lookup env' k
  end.

(** [process.env[k] = v]: Node calls [setenv] on the C strings of [k] and
    [v] and ignores its failure. *)
Definition env_set (env : Env) (k v : string) : Env :=
  let name := c_string k in
  if setenv_ok name then env_put env name (c_string v) else env.

(** [process.env[k]]: [getenv] on the C string of [k]. *)
Definition env_get (env : Env) (k : string) : option string :=
  env_lookup env (c_string k).

(** The options of [setEnv]: a missing key is [None]; [envNames] is the
    object of name overrides, as its string entries. *)
Record SetEnvOptions : Type := mkSetEnvOptions {
  se_timeout : option Z;
  se_prefix : option string;
  se_envNames : list (string * string);
  se_includeMetadata : option bool
}.

Fixpoint str_get (o : list (string * string)) (k : string) : option string :=
  match o with
  | [] => None
  | (k', v') :: o' => if String.eqb k k' then Some v' else str_get o' k
  end.

(** [envNames.k || dflt] *)
Definition name_or (override : option string) (dflt : string) : string :=
  match override with
  | Some s => if String.eqb s "" then dflt else s
  | None => dflt
  end.

Record EnvNames : Type := mkEnvNames {
  n_isEC2 : string;
  n_imdsVersion : string;
  n_instanceId : string;
  n_instanceType : string;
  n_amiId : string;
  n_localIpv4 : string;
  n_publicIpv4 : string
}.

(** The [names] object of [setEnv]. *)
Definition env_names (prefix : string) (envNames : list (string * string))
  : EnvNames :=
  mkEnvNames
    (name_or (str_get envNames "isEC2") (prefix ++ "IS_EC2"))
    (name_or (str_get envNames "imdsVersion") (prefix ++ "IMDS_VERSION"))
    (name_or (str_get envNames "instanceId") (prefix ++ "INSTANCE_ID"))
    (name_or (str_get envNames "instanceType") (prefix ++ "INSTANCE_TYPE"))
    (name_or (str_get envNames "amiId") (prefix ++ "AMI_ID"))
    (name_or (str_get envNames "localIpv4") (prefix ++ "LOCAL_IPV4"))
    (name_or (str_get envNames "publicIpv4") (prefix ++ "PUBLIC_IPV4")).

(** [if (result.metadata[field]) { process.env[name] = result.metadata[field]; }] *)
Definition set_field (md : option jsval) (field name : string) (env : Env) : Env :=
  let v := js_member md field in
  if truthy_opt v then env_set env name (js_to_string v) else env.

(** The assignments of [setEnv] after detection. *)
Definition apply_env (names : EnvNames) (result : jsval) (env : Env) : Env :=
  let env := env_set env (n_isEC2 names)
               (if truthy_opt (prop result "isEC2") then "true" else "false") in
  if truthy_opt (prop result "isEC2") then
    let env := env_set env (n_imdsVersion names)
                 (js_to_string (prop result "imdsVersion")) in
    let md := prop result "metadata" in
    if truthy_opt md then
      let env := set_field md "instance-id" (n_instanceId names) env in
      let env := set_field md "instance-type" (n_instanceType names) env in
      let env := set_field md "ami-id" (n_amiId names) env in
      let env := set_field md "local-ipv4" (n_localIpv4 names) env in
      set_field md "public-ipv4" (n_publicIpv4 names) env
    else env
  else env.

(** [setEnv(options)]: returns the detection result and [process.env]
    afterwards. *)
Definition setEnv (T : Transport) (o : SetEnvOptions) (env : Env)
  : M (jsval * Env) :=
  let timeout := match se_timeout o with Some t => t | None => 1000 end in
  let prefix := match se_prefix o with Some p => p | None => "EC2_" end in
  let includeMetadata :=
    match se_includeMetadata o with Some b => b | None => true end in
  result <- detectEC2 T (mkOptions (Some timeout) includeMetadata) ;;
  let names := env_names prefix (se_envNames o) in
  ret (result, apply_env names result env).

(** ** Reference descriptions for [setEnv] *)

(** The seven variable names, in the order of the [names] object. *)
Definition names_list (n : EnvNames) : list string :=
  [n_isEC2 n; n_imdsVersion n; n_instanceId n; n_instanceType n; n_amiId n;
   n_localIpv4 n; n_publicIpv4 n].

(** ** Concrete transports *)

(** The spec's scenario: the token endpoint issues "AABBCC", the tokened
    listing succeeds, [instance-id] answers, every other request times out. *)
Definition scenario_transport : Transport :=
  fun _ r =>
    if String.eqb (req_path r) TOKEN_PATH then Resp 200 "AABBCC"
    else if String.eqb (req_path r) META_PATH then Resp 200 ""
    else if String.eqb (req_path r) (META_PATH ++ "instance-id")
    then Resp 200 "i-0123456789abcdef0"
    else Fail.

(** The unreachable host: every request rejects. *)
Definition unreachable : Transport := fun _ _ => Fail.

(** A v2 host whose five field requests all time out. *)
Definition no_fields_transport : Transport :=
  fun _ r =>
    if String.eqb (req_path r) TOKEN_PATH then Resp 200 "AABBCC"
    else if String.eqb (req_path r) META_PATH then Resp 200 ""
    else Fail.

(** An IMDSv1-only host: the token endpoint is unreachable, the plain
    listing answers 200, the fields time out. *)
Definition v1_only_transport : Transport :=
  fun _ r =>
    if String.eqb (req_path r) META_PATH then Resp 200 "" else Fail.

(** Every request answers 404. *)
Definition not_found_transport : Transport := fun _ _ => Resp 404 "".

(** Every request answers 200 with an empty body. *)
Definition empty_body_transport : Transport := fun _ _ => Resp 200 "".

(** ** Shapes of the request sequences *)

(** The requests of the IMDSv2 attempt. *)
Inductive v2_requests (t : Z) : list Request -> Prop :=
| v2r_token : v2_requests t [put_token t]
| v2r_listing : forall tok, tok <> "" ->
    v2_requests t [put_token t; get_root [(TOKEN_HEADER, tok)] t].

(** The requests of the IMDSv1 attempt, when it is made. *)
Inductive v1_requests (t : Z) : list Request -> Prop :=
| v1r_skipped : v1_requests t []
| v1r_listing : v1_requests t [get_root [] t].

(** The requests of the metadata collection, when it is made. *)
Inductive meta_requests (t : Z) : list Request -> Prop :=
| mr_skipped : meta_requests t []
| mr_plain : meta_requests t (put_token t :: map (get_field [] t) fields)
| mr_token : forall tok, tok <> "" ->
    meta_requests t (put_token t :: map (get_field [(TOKEN_HEADER, tok)] t) fields).

(** A request as the detector may send it: a PUT only ever asks for a
    token, with the 21600-second TTL header, and a token header never
    carries the empty string. *)
Definition request_ok (r : Request) : Prop :=
  (req_method r = "PUT" ->
   req_path r = TOKEN_PATH /\ req_headers r = [(TTL_HEADER, "21600")]) /\
  (forall v, In (TOKEN_HEADER, v) (req_headers r) -> v <> "").

(** A host where every step that can be taken is taken: the token is
    issued, the tokened listing is refused, the plain listing answers. *)
Definition longest_transport : Transport :=
  fun _ r =>
    if String.eqb (req_path r) TOKEN_PATH then Resp 200 "AABBCC"
    else if String.eqb (req_path r) META_PATH then
      match req_headers r with
      | [] => Resp 200 ""
      | _ => Resp 401 ""
      end
    else Resp 200 "x".

(** ** Concrete runs *)

Example scenario_run :
  fst (detectEC2 scenario_transport (mkOptions None true) []) =
  Ok (JObj [("isEC2", JBool true); ("imdsVersion", JStr "v2");
            ("metadata", JObj [("instance-id", JStr "i-0123456789abcdef0")])]).
Proof. reflexivity. Qed.

Example unreachable_run :
  fst (detectEC2 unreachable (mkOptions None true) []) =
  Ok (JObj [("isEC2", JBool false)]).
Proof. reflexivity. Qed.

(** ** Lemmas about the embedding *)

Lemma js_set_absent : forall o k v,
  js_get o k = None -> js_set o k v = (o ++ [(k, v)])%list.
Proof.
  induction o as [|[k' v'] o IH]; intros k v H; simpl in *; [reflexivity|].
  destruct (String.eqb k k'); [discriminate|].
  now rewrite IH.
Qed.

Lemma js_get_app_absent : forall o k v g,
  js_get o g = None -> g <> k -> js_get (o ++ [(k, v)])%list g = None.
Proof.
  induction o as [|[k' v'] o IH]; intros k v g H Hne; simpl in *.
  - destruct (String.eqb_spec g k); [contradiction | reflexivity].
  - destruct (String.eqb g k'); [discriminate|]. now apply IH.
Qed.

Section Lemmas.

Variable T : Transport.
Variable t : Z.

Lemma fetchFields_spec : forall hd fs md h,
  (forall f, In f fs -> js_get md f = None) -> NoDup fs ->
  fetchFields T t hd fs md h =
  (Ok (md ++ collect_spec T h t hd fs)%list,
   (h ++ map (get_field hd t) fs)%list).
Proof.
  intros hd fs; induction fs as [|f fs IH]; intros md h Hab Hnd.
  - simpl. now rewrite !app_nil_r.
  - inversion Hnd as [|? ? Hnin Hnd']; subst.
    cbn [fetchFields collect_spec map]. unfold bind, try_catch, makeRequest, ret.
    change (mkRequest (META_PATH ++ f) t hd "GET") with (get_field hd t f).
    assert (Hab' : forall md', (forall g, In g fs -> js_get md' g = None) ->
      fetchFields T t hd fs md' (h ++ [get_field hd t f])%list =
      (Ok (md' ++ collect_spec T (h ++ [get_field hd t f])%list t hd fs)%list,
       (h ++ get_field hd t f :: map (get_field hd t) fs)%list)).
    { intros md' H'. rewrite IH by assumption. now rewrite <- app_assoc. }
    destruct (T h (get_field hd t f)) as [s b|] eqn:E; cbv beta iota zeta.
    + cbn [fst snd]. destruct (Z.eqb s 200).
      * rewrite js_set_absent by (apply Hab; now left).
        rewrite Hab'.
        -- now rewrite <- app_assoc.
        -- intros g Hg. apply js_get_app_absent.
           ++ apply Hab; now right.
           ++ intros ->. contradiction.
      * rewrite Hab' by (intros g Hg; apply Hab; now right).
        reflexivity.
    + rewrite Hab' by (intros g Hg; apply Hab; now right).
      reflexivity.
Qed.

Lemma getToken_spec : forall h,
  getToken T t h =
  (Ok (match T h (put_token t) with
       | Resp s b => if Z.eqb s 200 then JStr b else JNull
       | Fail => JNull
       end), (h ++ [put_token t])%list).
Proof.
  intros h. unfold getToken, try_catch, bind, makeRequest, ret.
  change (mkRequest TOKEN_PATH t [(TTL_HEADER, "21600")] "PUT") with (put_token t).
  now destruct (T h (put_token t)).
Qed.

Lemma token_headers_spec : forall h,
  token_headers
    (match T h (put_token t) with
     | Resp s b => if Z.eqb s 200 then JStr b else JNull
     | Fail => JNull
     end) = spec_headers T h t.
Proof.
  intros h. unfold spec_headers.
  destruct (T h (put_token t)) as [s b|]; [|reflexivity].
  destruct (Z.eqb s 200); reflexivity.
Qed.

Lemma fields_NoDup : NoDup fields.
Proof.
  unfold fields.
  repeat constructor; simpl; intuition discriminate.
Qed.

Lemma getMetadata_spec : forall h,
  getMetadata T t h =
  (Ok (metadata_spec T h t),
   (h ++ put_token t :: map (get_field (spec_headers T h t) t) fields)%list).
Proof.
  intros h. unfold getMetadata, try_catch, bind at 1.
  rewrite getToken_spec. unfold bind.
  rewrite token_headers_spec.
  rewrite fetchFields_spec by (auto using fields_NoDup).
  unfold ret, metadata_spec.
  set (c := collect_spec T (h ++ [put_token t])%list t (spec_headers T h t) fields).
  rewrite <- app_assoc. cbn [app].
  destruct c; reflexivity.
Qed.

Lemma tryIMDSv1_spec : forall h,
  tryIMDSv1 T t h =
  (Ok (match T h (get_root [] t) with
       | Resp s _ => Z.eqb s 200
       | Fail => false
       end), (h ++ [get_root [] t])%list).
Proof.
  intros h. unfold tryIMDSv1, try_catch, bind, makeRequest, ret.
  change (mkRequest META_PATH t [] "GET") with (get_root [] t).
  now destruct (T h (get_root [] t)).
Qed.

Lemma tryIMDSv2_cases : forall h,
  (exists tok b,
      T h (put_token t) = Resp 200 tok /\ tok <> "" /\
      T (h ++ [put_token t])%list (get_root [(TOKEN_HEADER, tok)] t)
        = Resp 200 b /\
      tryIMDSv2 T t h =
        (Ok true, (h ++ [put_token t; get_root [(TOKEN_HEADER, tok)] t])%list))
  \/ (exists h', v2_fails T t h h' /\ tryIMDSv2 T t h = (Ok false, h')).
Proof.
  intros h. unfold tryIMDSv2, try_catch, bind, makeRequest, ret.
  change (mkRequest TOKEN_PATH t [(TTL_HEADER, "21600")] "PUT") with (put_token t).
  destruct (T h (put_token t)) as [s tok|] eqn:E1; cbv beta iota zeta;
    cbn [fst snd].
  - destruct (Z.eqb_spec s 200) as [->|Hs]; cbn [negb orb].
    + unfold truthy. destruct (String.eqb_spec tok "") as [->|Htok];
        cbn [negb orb].
      * right. eexists; split; [now apply v2_token_empty | reflexivity].
      * change (mkRequest META_PATH t [(TOKEN_HEADER, tok)] "GET")
          with (get_root [(TOKEN_HEADER, tok)] t).
        destruct (T (h ++ [put_token t])%list (get_root [(TOKEN_HEADER, tok)] t))
          as [s' b|] eqn:E2; cbv beta iota zeta; cbn [fst snd].
        -- destruct (Z.eqb_spec s' 200) as [->|Hs'].
           ++ left. exists tok, b. rewrite <- app_assoc. auto.
           ++ right. eexists; split.
              ** eapply v2_get_not_200; eauto.
              ** now rewrite <- app_assoc.
        -- right. eexists; split.
           ++ eapply v2_get_rejected; eauto.
           ++ now rewrite <- app_assoc.
    + right. eexists; split; [eapply v2_token_not_200; eauto | reflexivity].
  - right. eexists; split; [now apply v2_token_rejected | reflexivity].
Qed.

Lemma v2_fails_det : forall h h1 h2,
  v2_fails T t h h1 -> v2_fails T t h h2 -> h1 = h2.
Proof.
  intros h h1 h2 H1 H2.
  destruct H1; destruct H2; try reflexivity; congruence.
Qed.

Lemma tryIMDSv2_fails : forall h h',
  v2_fails T t h h' -> tryIMDSv2 T t h = (Ok false, h').
Proof.
  intros h h' Hf.
  destruct (tryIMDSv2_cases h)
    as [(tok & b & E1 & Htok & E2 & _)|(h'' & Hf' & ->)].
  - exfalso. destruct Hf; congruence.
  - now rewrite (v2_fails_det _ _ _ Hf Hf').
Qed.

Lemma succeed_verbose : forall v h,
  succeed T v t true h =
  (Ok (JObj [("isEC2", JBool true); ("imdsVersion", JStr v);
             ("metadata", metadata_spec T h t)]),
   (h ++ put_token t :: map (get_field (spec_headers T h t) t) fields)%list).
Proof.
  intros v h. unfold succeed, bind. rewrite getMetadata_spec. reflexivity.
Qed.

Lemma succeed_quiet : forall v h,
  succeed T v t false h =
  (Ok (JObj [("isEC2", JBool true); ("imdsVersion", JStr v)]), h).
Proof. reflexivity. Qed.

Lemma succeed_trace : forall v verbose h,
  exists extra, snd (succeed T v t verbose h) = (h ++ extra)%list.
Proof.
  intros v [|] h.
  - rewrite succeed_verbose. cbn [snd]. eauto.
  - exists []. now rewrite app_nil_r.
Qed.

Lemma succeed_shape : forall v verbose h,
  exists r, fst (succeed T v t verbose h) = Ok (JObj r) /\
    js_get r "isEC2" = Some (JBool true) /\
    js_get r "imdsVersion" = Some (JStr v).
Proof.
  intros v [|] h.
  - rewrite succeed_verbose. cbn [fst]. eexists; repeat split.
  - rewrite succeed_quiet. cbn [fst]. eexists; repeat split.
Qed.

End Lemmas.

Section Detect.

Variable T : Transport.
Variable o : Options.
Let t := effective_timeout o.

Lemma detect_v2 : forall h h1,
  tryIMDSv2 T t h = (Ok true, h1) ->
  detectEC2 T o h = succeed T "v2" t (opt_verbose o) h1.
Proof. intros h h1 E. unfold detectEC2, bind. fold t. now rewrite E. Qed.

Lemma detect_v1 : forall h h1 h2,
  tryIMDSv2 T t h = (Ok false, h1) ->
  tryIMDSv1 T t h1 = (Ok true, h2) ->
  detectEC2 T o h = succeed T "v1" t (opt_verbose o) h2.
Proof.
  intros h h1 h2 E1 E2. unfold detectEC2, bind. fold t. now rewrite E1, E2.
Qed.

Lemma detect_none : forall h h1 h2,
  tryIMDSv2 T t h = (Ok false, h1) ->
  tryIMDSv1 T t h1 = (Ok false, h2) ->
  detectEC2 T o h = (Ok (JObj [("isEC2", JBool false)]), h2).
Proof.
  intros h h1 h2 E1 E2. unfold detectEC2, bind. fold t. now rewrite E1, E2.
Qed.

End Detect.

(** ** Claims *)

(** A request issued on a failed or successful v2 path is never the plain
    IMDSv1 probe, nor is any request of the metadata collection. *)
Lemma plain_probe_not_v2 : forall t tok hd,
  tok <> "" ->
  ~ In (get_root [] t)
      ([put_token t; get_root [(TOKEN_HEADER, tok)] t] ++
       put_token t :: map (get_field hd t) fields)%list.
Proof.
  intros t tok hd Htok Hin.
  unfold fields in Hin. simpl in Hin.
  repeat destruct Hin as [Hin|Hin]; try exact Hin;
    unfold get_root, put_token, get_field in Hin; injection Hin;
    intros; try discriminate.
Qed.

(** C1 (code_bug): with [verbose] on a v2 host whose five field requests
    all time out, [detectEC2] returns an object that HAS a [metadata] key,
    bound to [null], instead of leaving the key out. *)
Theorem C1_metadata_key_null :
  fst (detectEC2 no_fields_transport (mkOptions None true) []) =
  Ok (JObj [("isEC2", JBool true); ("imdsVersion", JStr "v2");
            ("metadata", JNull)]).
Proof. reflexivity. Qed.

(** C2: when the token PUT answers 200 with a non-empty body and the GET of
    the listing path carrying that token answers 200, the result has
    [isEC2 = true] and [imdsVersion = "v2"]. *)
Theorem C2_v2_detected : forall T o tok b,
  T [] (put_token (effective_timeout o)) = Resp 200 tok ->
  tok <> "" ->
  T [put_token (effective_timeout o)]
    (get_root [(TOKEN_HEADER, tok)] (effective_timeout o)) = Resp 200 b ->
  exists r, fst (detectEC2 T o []) = Ok (JObj r) /\
    js_get r "isEC2" = Some (JBool true) /\
    js_get r "imdsVersion" = Some (JStr "v2").
Proof.
  intros T o tok b E1 Htok E2.
  destruct (tryIMDSv2_cases T (effective_timeout o) [])
    as [(tok' & b' & _ & _ & _ & Hv2)|(h' & Hf & _)].
  - rewrite (detect_v2 T o _ _ Hv2). apply succeed_shape.
  - exfalso. destruct Hf; simpl in *; congruence.
Qed.

Lemma C2_witness :
  scenario_transport [] (put_token 1000) = Resp 200 "AABBCC" /\
  "AABBCC" <> "" /\
  scenario_transport [put_token 1000]
    (get_root [(TOKEN_HEADER, "AABBCC")] 1000) = Resp 200 "" /\
  exists r, fst (detectEC2 scenario_transport (mkOptions None false) []) =
    Ok (JObj r) /\
    js_get r "isEC2" = Some (JBool true) /\
    js_get r "imdsVersion" = Some (JStr "v2").
Proof.
  split; [reflexivity|]. split; [discriminate|]. split; [reflexivity|].
  apply (C2_v2_detected scenario_transport (mkOptions None false) "AABBCC" "");
    [reflexivity | discriminate | reflexivity].
Defined.

(** C3: when the IMDSv2 path fails in any of its ways and the plain GET of
    the listing path then answers 200, the result has [isEC2 = true] and
    [imdsVersion = "v1"], the plain GET being issued right after the failed
    v2 requests; and for every transport, the plain GET is issued only
    after a failed IMDSv2 attempt. *)
Theorem C3_v1_fallback : forall T o h b,
  v2_fails T (effective_timeout o) [] h ->
  T h (get_root [] (effective_timeout o)) = Resp 200 b ->
  (exists r rest,
      detectEC2 T o [] =
        (Ok (JObj r), (h ++ get_root [] (effective_timeout o) :: rest)%list) /\
      js_get r "isEC2" = Some (JBool true) /\
      js_get r "imdsVersion" = Some (JStr "v1")) /\
  (forall T',
      In (get_root [] (effective_timeout o)) (snd (detectEC2 T' o [])) ->
      exists h', v2_fails T' (effective_timeout o) [] h' /\
        exists rest, snd (detectEC2 T' o []) =
          (h' ++ get_root [] (effective_timeout o) :: rest)%list).
Proof.
  intros T o h b Hf E. set (t := effective_timeout o) in *.
  split.
  - assert (Hv1 : tryIMDSv1 T t h = (Ok true, (h ++ [get_root [] t])%list)).
    { rewrite tryIMDSv1_spec, E. reflexivity. }
    pose proof (detect_v1 T o _ _ _ (tryIMDSv2_fails T t _ _ Hf) Hv1) as D.
    destruct (succeed_shape T t "v1" (opt_verbose o) (h ++ [get_root [] t])%list)
      as (r & Hr & Hi & Hv).
    destruct (succeed_trace T t "v1" (opt_verbose o) (h ++ [get_root [] t])%list)
      as (extra & Hx).
    exists r, extra. rewrite D. split; [|auto].
    destruct (succeed T "v1" t (opt_verbose o) (h ++ [get_root [] t])%list)
      as [res tr] eqn:Es.
    cbn [fst snd] in *. subst. fold t. rewrite Es. now rewrite <- app_assoc.
  - intros T' Hin.
    destruct (tryIMDSv2_cases T' t [])
      as [(tok & b' & _ & Htok & _ & Hv2)|(h' & Hf' & Hv2)].
    + exfalso. rewrite (detect_v2 T' o _ _ Hv2) in Hin.
      destruct (opt_verbose o).
      * rewrite succeed_verbose in Hin. cbn [snd] in Hin.
        exact (plain_probe_not_v2 t tok _ Htok Hin).
      * rewrite succeed_quiet in Hin. cbn [snd app] in Hin.
        unfold get_root, put_token in Hin. simpl in Hin. intuition congruence.
    + exists h'. split; [exact Hf'|].
      assert (Hv1 : exists v1,
        tryIMDSv1 T' t h' = (Ok v1, (h' ++ [get_root [] t])%list))
        by (eexists; apply tryIMDSv1_spec).
      destruct Hv1 as [[|] Hv1].
      * rewrite (detect_v1 T' o _ _ _ Hv2 Hv1).
        destruct (succeed_trace T' t "v1" (opt_verbose o) (h' ++ [get_root [] t])%list)
          as (extra & Hx).
        exists extra. fold t. rewrite Hx. now rewrite <- app_assoc.
      * rewrite (detect_none T' o _ _ _ Hv2 Hv1). now exists [].
Qed.

Lemma C3_witness :
  v2_fails v1_only_transport 1000 [] [put_token 1000] /\
  v1_only_transport [put_token 1000] (get_root [] 1000) = Resp 200 "" /\
  ((exists r rest,
      detectEC2 v1_only_transport (mkOptions None true) [] =
        (Ok (JObj r), ([put_token 1000] ++ get_root [] 1000 :: rest)%list) /\
      js_get r "isEC2" = Some (JBool true) /\
      js_get r "imdsVersion" = Some (JStr "v1")) /\
   (forall T',
      In (get_root [] 1000) (snd (detectEC2 T' (mkOptions None true) [])) ->
      exists h', v2_fails T' 1000 [] h' /\
        exists rest, snd (detectEC2 T' (mkOptions None true) []) =
          (h' ++ get_root [] 1000 :: rest)%list)).
Proof.
  assert (Hf : v2_fails v1_only_transport 1000 [] [put_token 1000])
    by (apply (v2_token_rejected v1_only_transport 1000 []); reflexivity).
  split; [exact Hf|]. split; [reflexivity|].
  exact (C3_v1_fallback v1_only_transport (mkOptions None true)
           [put_token 1000] "" Hf eq_refl).
Defined.

(** C4: when both probes fail, [detectEC2] returns exactly [{isEC2: false}]
    and raises nothing. *)
Theorem C4_not_ec2 : forall T o h,
  v2_fails T (effective_timeout o) [] h ->
  probe_fails (T h (get_root [] (effective_timeout o))) ->
  fst (detectEC2 T o []) = Ok (JObj [("isEC2", JBool false)]).
Proof.
  intros T o h Hf Hp. set (t := effective_timeout o) in *.
  assert (Hv1 : tryIMDSv1 T t h = (Ok false, (h ++ [get_root [] t])%list)).
  { rewrite tryIMDSv1_spec. unfold probe_fails in Hp.
    destruct (T h (get_root [] t)) as [s b|]; [|reflexivity].
    now rewrite (proj2 (Z.eqb_neq s 200) Hp). }
  now rewrite (detect_none T o _ _ _ (tryIMDSv2_fails T t _ _ Hf) Hv1).
Qed.

Lemma C4_witness :
  v2_fails unreachable 1000 [] [put_token 1000] /\
  probe_fails (unreachable [put_token 1000] (get_root [] 1000)) /\
  fst (detectEC2 unreachable (mkOptions None true) []) =
    Ok (JObj [("isEC2", JBool false)]).
Proof.
  assert (Hf : v2_fails unreachable 1000 [] [put_token 1000])
    by (apply (v2_token_rejected unreachable 1000 []); reflexivity).
  split; [exact Hf|]. split; [exact I|].
  exact (C4_not_ec2 unreachable (mkOptions None true) [put_token 1000] Hf I).
Defined.

(** C5: for every transport and options, [imdsVersion] is present, with
    value "v1" or "v2", exactly when [isEC2] is true, and absent when
    [isEC2] is false. *)
Theorem C5_version_iff_ec2 : forall T o h0,
  exists r b, fst (detectEC2 T o h0) = Ok (JObj r) /\
    js_get r "isEC2" = Some (JBool b) /\
    (b = true <-> (js_get r "imdsVersion" = Some (JStr "v1") \/
                   js_get r "imdsVersion" = Some (JStr "v2"))) /\
    (b = false -> js_get r "imdsVersion" = None).
Proof.
  intros T o h0. set (t := effective_timeout o).
  destruct (tryIMDSv2_cases T t h0)
    as [(tok & b' & _ & _ & _ & Hv2)|(h1 & _ & Hv2)].
  - rewrite (detect_v2 T o _ _ Hv2).
    destruct (succeed_shape T t "v2" (opt_verbose o)
                (h0 ++ [put_token t; get_root [(TOKEN_HEADER, tok)] t])%list)
      as (r & Hr & Hi & Hv).
    exists r, true. repeat split; auto; discriminate.
  - assert (Hv1 : exists v1,
      tryIMDSv1 T t h1 = (Ok v1, (h1 ++ [get_root [] t])%list))
      by (eexists; apply tryIMDSv1_spec).
    destruct Hv1 as [[|] Hv1].
    + rewrite (detect_v1 T o _ _ _ Hv2 Hv1).
      destruct (succeed_shape T t "v1" (opt_verbose o) (h1 ++ [get_root [] t])%list)
        as (r & Hr & Hi & Hv).
      exists r, true. repeat split; auto; discriminate.
    + rewrite (detect_none T o _ _ _ Hv2 Hv1).
      exists [("isEC2", JBool false)], false.
      repeat split; cbn; try discriminate.
      intros [H|H]; discriminate.
Qed.


(** C6: on a verbose call the result is either [{isEC2: false}] or
    [{isEC2: true, imdsVersion: v, metadata: m}], where [v] is the probe
    that succeeded and [m] holds exactly the fields whose GET answered 200,
    each with its raw body, in field order ([null] when there is none). *)
Theorem C6_metadata_exact : forall T o h0,
  opt_verbose o = true ->
  fst (detectEC2 T o h0) = Ok (JObj [("isEC2", JBool false)]) \/
  exists v h,
    ((v = "v2" /\ tryIMDSv2 T (effective_timeout o) h0 = (Ok true, h)) \/
     (v = "v1" /\ fst (tryIMDSv2 T (effective_timeout o) h0) = Ok false /\
      tryIMDSv1 T (effective_timeout o) (snd (tryIMDSv2 T (effective_timeout o) h0))
        = (Ok true, h))) /\
    fst (detectEC2 T o h0) =
      Ok (JObj [("isEC2", JBool true); ("imdsVersion", JStr v);
                ("metadata", metadata_spec T h (effective_timeout o))]).
Proof.
  intros T o h0 Hverb. set (t := effective_timeout o).
  destruct (tryIMDSv2_cases T t h0)
    as [(tok & b' & _ & _ & _ & Hv2)|(h1 & _ & Hv2)].
  - right. eexists "v2", _. split; [left; split; [reflexivity|exact Hv2]|].
    rewrite (detect_v2 T o _ _ Hv2), Hverb, succeed_verbose. reflexivity.
  - assert (Hv1 : exists v1,
      tryIMDSv1 T t h1 = (Ok v1, (h1 ++ [get_root [] t])%list))
      by (eexists; apply tryIMDSv1_spec).
    destruct Hv1 as [[|] Hv1].
    + right. eexists "v1", _. split.
      * right. rewrite Hv2. cbn [fst snd]. split; [reflexivity|].
        split; [reflexivity|exact Hv1].
      * rewrite (detect_v1 T o _ _ _ Hv2 Hv1), Hverb, succeed_verbose.
        reflexivity.
    + left. now rewrite (detect_none T o _ _ _ Hv2 Hv1).
Qed.

Lemma C6_witness :
  opt_verbose (mkOptions None true) = true /\
  (fst (detectEC2 scenario_transport (mkOptions None true) []) =
     Ok (JObj [("isEC2", JBool false)]) \/
   exists v h,
    ((v = "v2" /\ tryIMDSv2 scenario_transport 1000 [] = (Ok true, h)) \/
     (v = "v1" /\ fst (tryIMDSv2 scenario_transport 1000 []) = Ok false /\
      tryIMDSv1 scenario_transport 1000 (snd (tryIMDSv2 scenario_transport 1000 []))
        = (Ok true, h))) /\
    fst (detectEC2 scenario_transport (mkOptions None true) []) =
      Ok (JObj [("isEC2", JBool true); ("imdsVersion", JStr v);
                ("metadata", metadata_spec scenario_transport h 1000)])).
Proof.
  split; [reflexivity|].
  exact (C6_metadata_exact scenario_transport (mkOptions None true) [] eq_refl).
Defined.

(** When the metadata collection's own token PUT yields no token, the five
    field GETs go out with no header. *)
Lemma getMetadata_no_token : forall T t h,
  spec_headers T h t = [] ->
  getMetadata T t h =
  (Ok (meta_of (collect_spec T (h ++ [put_token t])%list t [] fields)),
   (h ++ put_token t :: map (get_field [] t) fields)%list).
Proof.
  intros T t h Hs. rewrite getMetadata_spec. unfold metadata_spec.
  now rewrite Hs.
Qed.

(** The IMDSv2 probe succeeds once the PUT answers a non-empty token and
    the tokened listing answers 200. *)
Lemma tryIMDSv2_success : forall T t h tok b,
  T h (put_token t) = Resp 200 tok -> tok <> "" ->
  T (h ++ [put_token t])%list (get_root [(TOKEN_HEADER, tok)] t) = Resp 200 b ->
  tryIMDSv2 T t h = (Ok true, (h ++ [put_token t; get_root [(TOKEN_HEADER, tok)] t])%list).
Proof.
  intros T t h tok b E1 Htok E2.
  destruct (tryIMDSv2_cases T t h)
    as [(tok' & b' & E1' & _ & _ & Hv2)|(h' & Hf & Hv2)].
  - rewrite E1 in E1'. injection E1' as <-. exact Hv2.
  - exfalso. destruct Hf as [E|s0 b0 E Hs|E|tok' E Htok' E'|tok' s0 b0 E Htok' E' Hs];
      rewrite E1 in E; try discriminate E.
    + injection E as <- _. now apply Hs.
    + injection E as ->. now apply Htok.
    + injection E as <-. rewrite E2 in E'. discriminate E'.
    + injection E as <-. rewrite E2 in E'. injection E' as <- _. now apply Hs.
Qed.

(** C8: [getMetadata] always sends a token PUT of its own, the very request
    the IMDSv2 probe starts with (same path, TTL header, timeout and
    method), and the field GETs carry the token of that PUT's answer only:
    after a successful IMDSv2 probe a verbose detection sends the PUT a
    second time and the fields' header comes from the second answer, not
    from the probe's token.  When the PUT rejects or answers non-200, the
    five field GETs are still all issued, with no token header, and
    collection succeeds. *)
Theorem C8_metadata_own_token : forall T t h,
  (exists rest, snd (tryIMDSv2 T t h) = (h ++ put_token t :: rest)%list) /\
  snd (getMetadata T t h) =
    (h ++ put_token t :: map (get_field (spec_headers T h t) t) fields)%list /\
  (forall tok, spec_headers T h t = [(TOKEN_HEADER, tok)] ->
     T h (put_token t) = Resp 200 tok) /\
  (probe_fails (T h (put_token t)) ->
   getMetadata T t h =
   (Ok (meta_of (collect_spec T (h ++ [put_token t])%list t [] fields)),
    (h ++ put_token t :: map (get_field [] t) fields)%list)) /\
  (forall o tok b, effective_timeout o = t -> opt_verbose o = true ->
   T h (put_token t) = Resp 200 tok -> tok <> "" ->
   T (h ++ [put_token t])%list (get_root [(TOKEN_HEADER, tok)] t) = Resp 200 b ->
   snd (detectEC2 T o h) =
   (h ++ [put_token t; get_root [(TOKEN_HEADER, tok)] t; put_token t] ++
    map (get_field (spec_headers T (h ++ [put_token t; get_root [(TOKEN_HEADER, tok)] t])
                      t) t) fields)%list).
Proof.
  intros T t h. split; [|split; [|split; [|split]]].
  - destruct (tryIMDSv2_cases T t h)
      as [(tok & b & _ & _ & _ & Hv2)|(h' & Hf & Hv2)];
      rewrite Hv2; cbn [snd].
    + eexists. reflexivity.
    + destruct Hf; eexists; reflexivity.
  - rewrite getMetadata_spec. reflexivity.
  - intros tok Hs. unfold spec_headers in Hs.
    destruct (T h (put_token t)) as [s b|]; [|discriminate Hs].
    destruct (Z.eqb_spec s 200) as [->|_]; cbn [andb] in Hs; [|discriminate Hs].
    destruct (String.eqb b ""); cbn [negb] in Hs; [discriminate Hs|].
    now injection Hs as ->.
  - intros Hp. apply getMetadata_no_token. unfold spec_headers.
    unfold probe_fails in Hp.
    destruct (T h (put_token t)) as [s b|]; [|reflexivity].
    now rewrite (proj2 (Z.eqb_neq s 200) Hp).
  - intros o tok b Ht Hv E1 Htok E2. subst t.
    rewrite (detect_v2 T o _ _ (tryIMDSv2_success T _ h tok b E1 Htok E2)).
    rewrite Hv, succeed_verbose. cbn [snd].
    now rewrite <- app_assoc.
Qed.

Lemma C8_witness :
  snd (detectEC2 scenario_transport (mkOptions None true) []) =
  ([] ++ [put_token 1000; get_root [(TOKEN_HEADER, "AABBCC")] 1000; put_token 1000] ++
   map (get_field (spec_headers scenario_transport
                     ([] ++ [put_token 1000; get_root [(TOKEN_HEADER, "AABBCC")] 1000])
                     1000) 1000) fields)%list.
Proof.
  destruct (C8_metadata_own_token scenario_transport 1000 []) as (_ & _ & _ & _ & H).
  apply (H (mkOptions None true) "AABBCC" ""); try reflexivity.
  discriminate.
Defined.

(** Every probe failing, no transport makes [detectEC2] report EC2. *)
Lemma all_fail_not_ec2 : forall T o h0,
  (forall h r, probe_fails (T h r)) ->
  fst (detectEC2 T o h0) = Ok (JObj [("isEC2", JBool false)]).
Proof.
  intros T o h0 Hall. set (t := effective_timeout o).
  destruct (tryIMDSv2_cases T t h0)
    as [(tok & b & E1 & _)|(h1 & _ & Hv2)].
  - exfalso. specialize (Hall h0 (put_token t)). rewrite E1 in Hall.
    now apply Hall.
  - assert (Hv1 : tryIMDSv1 T t h1 = (Ok false, (h1 ++ [get_root [] t])%list)).
    { rewrite tryIMDSv1_spec. specialize (Hall h1 (get_root [] t)).
      unfold probe_fails in Hall.
      destruct (T h1 (get_root [] t)) as [s b|]; [|reflexivity].
      now rewrite (proj2 (Z.eqb_neq s 200) Hall). }
    now rewrite (detect_none T o _ _ _ Hv2 Hv1).
Qed.

(** C9: two calls with the same options against transports on which every
    probe fails return the same result, [{isEC2: false}]. *)
Theorem C9_unreachable_deterministic : forall T1 T2 o,
  (forall h r, probe_fails (T1 h r)) ->
  (forall h r, probe_fails (T2 h r)) ->
  fst (detectEC2 T1 o []) = fst (detectEC2 T2 o []) /\
  fst (detectEC2 T1 o []) = Ok (JObj [("isEC2", JBool false)]).
Proof.
  intros T1 T2 o H1 H2.
  rewrite (all_fail_not_ec2 T1 o [] H1), (all_fail_not_ec2 T2 o [] H2).
  split; reflexivity.
Qed.

Lemma C9_witness :
  (forall h r, probe_fails (unreachable h r)) /\
  (forall h r, probe_fails (not_found_transport h r)) /\
  fst (detectEC2 unreachable (mkOptions (Some 50) true) []) =
    fst (detectEC2 not_found_transport (mkOptions (Some 50) true) []) /\
  fst (detectEC2 unreachable (mkOptions (Some 50) true) []) =
    Ok (JObj [("isEC2", JBool false)]).
Proof.
  assert (H1 : forall h r, probe_fails (unreachable h r)) by (intros; exact I).
  assert (H2 : forall h r, probe_fails (not_found_transport h r))
    by (intros; cbv; discriminate).
  split; [exact H1|]. split; [exact H2|].
  exact (C9_unreachable_deterministic unreachable not_found_transport
           (mkOptions (Some 50) true) H1 H2).
Defined.

(** C10: when [getMetadata]'s token PUT answers 200 with an empty body,
    the empty string counts as no token: the five field GETs carry no
    header, exactly as when the PUT fails. *)
Theorem C10_empty_token_ignored : forall T t h,
  T h (put_token t) = Resp 200 "" ->
  getMetadata T t h =
  (Ok (meta_of (collect_spec T (h ++ [put_token t])%list t [] fields)),
   (h ++ put_token t :: map (get_field [] t) fields)%list).
Proof.
  intros T t h E. apply getMetadata_no_token.
  unfold spec_headers. now rewrite E.
Qed.

Lemma C10_witness :
  empty_body_transport [] (put_token 1000) = Resp 200 "" /\
  getMetadata empty_body_transport 1000 [] =
  (Ok (meta_of (collect_spec empty_body_transport ([] ++ [put_token 1000])%list
                  1000 [] fields)),
   ([] ++ put_token 1000 :: map (get_field [] 1000) fields)%list).
Proof.
  split; [reflexivity|].
  exact (C10_empty_token_ignored empty_body_transport 1000 [] eq_refl).
Defined.

(** ** Further properties of the detector *)

Lemma spec_headers_cases : forall T h t,
  spec_headers T h t = [] \/
  exists tok, tok <> "" /\ spec_headers T h t = [(TOKEN_HEADER, tok)].
Proof.
  intros T h t. unfold spec_headers.
  destruct (T h (put_token t)) as [s b|]; [|now left].
  destruct (Z.eqb s 200); cbn [andb]; [|now left].
  destruct (String.eqb_spec b "") as [->|Hb]; cbn [negb]; [now left|].
  right. eauto.
Qed.

Lemma getMetadata_requests : forall T t h,
  exists c, snd (getMetadata T t h) = (h ++ c)%list /\ meta_requests t c /\
    c <> [].
Proof.
  intros T t h. rewrite getMetadata_spec. cbn [snd].
  eexists; split; [reflexivity|]. split; [|discriminate].
  destruct (spec_headers_cases T h t) as [->|(tok & Htok & ->)].
  - apply mr_plain.
  - now apply mr_token.
Qed.

(** Every run of [detectEC2] sends the IMDSv2 requests, then possibly the
    plain listing GET, then possibly (only when verbose) the metadata
    requests. *)
Lemma detect_requests : forall T o h,
  exists a b c,
    snd (detectEC2 T o h) = (h ++ a ++ b ++ c)%list /\
    v2_requests (effective_timeout o) a /\
    v1_requests (effective_timeout o) b /\
    meta_requests (effective_timeout o) c /\
    (opt_verbose o = false -> c = []).
Proof.
  intros T o h. set (t := effective_timeout o).
  assert (Hs : forall v h1, exists c,
    snd (succeed T v t (opt_verbose o) h1) = (h1 ++ c)%list /\
    meta_requests t c /\ (opt_verbose o = false -> c = [])).
  { intros v h1. destruct (opt_verbose o).
    - destruct (getMetadata_requests T t h1) as (c & Hc & Hm & _).
      exists c. unfold succeed, bind.
      destruct (getMetadata T t h1) as [[] h2]; cbn [snd] in *; subst;
        repeat split; auto; discriminate.
    - exists []. rewrite succeed_quiet, app_nil_r. repeat split; auto.
      constructor. }
  destruct (tryIMDSv2_cases T t h)
    as [(tok & b' & _ & Htok & _ & Hv2)|(h1 & Hf & Hv2)].
  - rewrite (detect_v2 T o _ _ Hv2). fold t.
    destruct (Hs "v2" (h ++ [put_token t; get_root [(TOKEN_HEADER, tok)] t])%list)
      as (c & Hc & Hm & Hq).
    exists [put_token t; get_root [(TOKEN_HEADER, tok)] t], [], c.
    rewrite Hc, <- app_assoc. repeat split; auto; constructor; auto.
  - assert (Ha : exists a, h1 = (h ++ a)%list /\ v2_requests t a).
    { destruct Hf; eexists; split; try reflexivity; constructor; auto. }
    destruct Ha as (a & -> & Ha).
    assert (Hv1 : exists v1,
      tryIMDSv1 T t (h ++ a)%list = (Ok v1, ((h ++ a) ++ [get_root [] t])%list))
      by (eexists; apply tryIMDSv1_spec).
    destruct Hv1 as [[|] Hv1].
    + rewrite (detect_v1 T o _ _ _ Hv2 Hv1). fold t.
      destruct (Hs "v1" ((h ++ a) ++ [get_root [] t])%list) as (c & Hc & Hm & Hq).
      exists a, [get_root [] t], c.
      rewrite Hc, <- !app_assoc. repeat split; auto; constructor.
    + rewrite (detect_none T o _ _ _ Hv2 Hv1).
      exists a, [get_root [] t], [].
      rewrite <- !app_assoc. repeat split; auto; constructor.
Qed.

(** A property of every request the detector may send holds of a whole run
    once it holds of each kind of request. *)
Lemma shapes_Forall : forall (P : Request -> Prop) t a b c,
  P (put_token t) ->
  (forall hd, (hd = [] \/ exists tok, tok <> "" /\ hd = [(TOKEN_HEADER, tok)]) ->
     P (get_root hd t)) ->
  (forall hd f, (hd = [] \/ exists tok, tok <> "" /\ hd = [(TOKEN_HEADER, tok)]) ->
     P (get_field hd t f)) ->
  v2_requests t a -> v1_requests t b -> meta_requests t c ->
  Forall P (a ++ b ++ c)%list.
Proof.
  intros P t a b c Hput Hroot Hfield Ha Hb Hc.
  assert (Hm : forall hd, (hd = [] \/ exists tok, tok <> "" /\ hd = [(TOKEN_HEADER, tok)]) ->
             Forall P (map (get_field hd t) fields)).
  { intros hd Hhd. apply Forall_map, Forall_forall. intros f _. now apply Hfield. }
  apply Forall_app; split; [|apply Forall_app; split].
  - destruct Ha; repeat constructor; auto.
    apply Hroot. right. eauto.
  - destruct Hb; repeat constructor. apply Hroot. now left.
  - destruct Hc; constructor; auto.
    apply Hm. right. eauto.
Qed.

(** Every request a call of [detectEC2] sends carries the same timeout:
    [options.timeout], or 1000 when it is absent or 0. *)
Theorem detect_requests_timeout : forall T o h,
  exists new, snd (detectEC2 T o h) = (h ++ new)%list /\
    Forall (fun r => req_timeout r = effective_timeout o) new.
Proof.
  intros T o h.
  destruct (detect_requests T o h) as (a & b & c & E & Ha & Hb & Hc & _).
  exists (a ++ b ++ c)%list. split; [exact E|].
  apply (shapes_Forall _ (effective_timeout o) a b c); auto.
Qed.

(** The IMDSv2 probe fails after two requests when the PUT answers a
    non-empty token but the tokened listing fails. *)
Lemma tryIMDSv2_listing_fails : forall T t h tok,
  T h (put_token t) = Resp 200 tok -> tok <> "" ->
  probe_fails (T (h ++ [put_token t])%list (get_root [(TOKEN_HEADER, tok)] t)) ->
  tryIMDSv2 T t h = (Ok false, (h ++ [put_token t; get_root [(TOKEN_HEADER, tok)] t])%list).
Proof.
  intros T t h tok E1 Htok Hp.
  destruct (tryIMDSv2_cases T t h)
    as [(tok' & b' & E1' & _ & E2 & _)|(h' & Hf & Hv2)].
  - rewrite E1 in E1'. injection E1' as <-. rewrite E2 in Hp. now contradiction Hp.
  - rewrite Hv2. f_equal.
    destruct Hf as [E|s0 b0 E Hs|E|tok' E Htok' E'|tok' s0 b0 E Htok' E' Hs];
      rewrite E1 in E; try discriminate E.
    + injection E as <- _. now contradiction Hs.
    + injection E as ->. now contradiction Htok.
    + now injection E as <-.
    + now injection E as <-.
Qed.

(** A call of [detectEC2] sends at most 9 requests, at most 3 when not
    verbose; every verbose call on a host that answers the PUT with a token,
    fails the tokened listing and answers the plain one sends all 9. *)
Theorem detect_request_count :
  (forall T o h, exists new, snd (detectEC2 T o h) = (h ++ new)%list /\
     (length new <= 9)%nat /\ (opt_verbose o = false -> (length new <= 3)%nat)) /\
  (forall T o h tok,
     opt_verbose o = true ->
     T h (put_token (effective_timeout o)) = Resp 200 tok -> tok <> "" ->
     probe_fails (T (h ++ [put_token (effective_timeout o)])%list
                    (get_root [(TOKEN_HEADER, tok)] (effective_timeout o))) ->
     (exists b, T (h ++ [put_token (effective_timeout o);
                         get_root [(TOKEN_HEADER, tok)] (effective_timeout o)])%list
                  (get_root [] (effective_timeout o)) = Resp 200 b) ->
     length (snd (detectEC2 T o h)) = (length h + 9)%nat).
Proof.
  split.
  - intros T o h.
    destruct (detect_requests T o h) as (a & b & c & E & Ha & Hb & Hc & Hq).
    exists (a ++ b ++ c)%list. split; [exact E|].
    rewrite !length_app.
    assert (La : (length a <= 2)%nat) by (destruct Ha; simpl; lia).
    assert (Lb : (length b <= 1)%nat) by (destruct Hb; simpl; lia).
    assert (Lc : (length c <= 6)%nat) by (destruct Hc; simpl; lia).
    split; [lia|]. intros Hv. rewrite (Hq Hv). simpl. lia.
  - intros T o h tok Hv E1 Htok Hp [b E3].
    set (t := effective_timeout o) in *.
    pose proof (tryIMDSv2_listing_fails T t h tok E1 Htok Hp) as Hv2.
    assert (Hv1 : tryIMDSv1 T t (h ++ [put_token t; get_root [(TOKEN_HEADER, tok)] t])%list
                  = (Ok true, ((h ++ [put_token t; get_root [(TOKEN_HEADER, tok)] t])
                               ++ [get_root [] t])%list)).
    { rewrite tryIMDSv1_spec, E3. reflexivity. }
    rewrite (detect_v1 T o _ _ _ Hv2 Hv1). fold t. rewrite Hv, succeed_verbose.
    cbn [snd]. rewrite !length_app. simpl. lia.
Qed.

Lemma detect_request_count_witness :
  length (snd (detectEC2 longest_transport (mkOptions None true) [])) = 9%nat.
Proof.
  destruct detect_request_count as [_ H].
  apply (H longest_transport (mkOptions None true) [] "AABBCC"); try reflexivity.
  - discriminate.
  - cbv. discriminate.
  - eexists. reflexivity.
Defined.

(** The detector only PUTs to the token endpoint, always with the
    21600-second TTL header, and never sends an empty token header. *)
Theorem detect_requests_well_formed : forall T o h,
  exists new, snd (detectEC2 T o h) = (h ++ new)%list /\ Forall request_ok new.
Proof.
  intros T o h.
  destruct (detect_requests T o h) as (a & b & c & E & Ha & Hb & Hc & _).
  exists (a ++ b ++ c)%list. split; [exact E|].
  assert (Hhd : forall hd v,
    (hd = [] \/ exists tok, tok <> "" /\ hd = [(TOKEN_HEADER, tok)]) ->
    In (TOKEN_HEADER, v) hd -> v <> "").
  { intros hd v [->|(tok & Htok & ->)] Hin; [destruct Hin|].
    destruct Hin as [Hin|[]]. injection Hin as <-. exact Htok. }
  apply (shapes_Forall _ (effective_timeout o) a b c); auto.
  - split.
    + intros _. split; reflexivity.
    + intros v [Hin|[]]. discriminate Hin.
  - intros hd Hh. split.
    + intros Hm. discriminate Hm.
    + intros v. now apply Hhd.
  - intros hd f Hh. split.
    + intros Hm. discriminate Hm.
    + intros v. now apply Hhd.
Qed.

(** ** Properties of [setEnv] *)

Lemma env_lookup_put_same : forall env k v, env_lookup (env_put env k v) k = Some v.
Proof.
  induction env as [|[k' v'] env IH]; intros k v; simpl.
  - now rewrite String.eqb_refl.
  - destruct (String.eqb_spec k k') as [->|Hne]; simpl.
    + now rewrite String.eqb_refl.
    + rewrite (proj2 (String.eqb_neq k k') Hne). apply IH.
Qed.

Lemma env_lookup_put_other : forall env k v k',
  k' <> k -> env_lookup (env_put env k v) k' = env_lookup env k'.
Proof.
  induction env as [|[k0 v0] env IH]; intros k v k' Hne; simpl.
  - now rewrite (proj2 (String.eqb_neq k' k) Hne).
  - destruct (String.eqb_spec k k0) as [->|Hne0]; simpl.
    + now rewrite (proj2 (String.eqb_neq k' k0) Hne).
    + destruct (String.eqb k' k0); [reflexivity|]. now apply IH.
Qed.

Lemma env_get_set_same : forall env k v,
  setenv_ok (c_string k) = true ->
  env_get (env_set env k v) k = Some (c_string v).
Proof.
  intros env k v Hok. unfold env_get, env_set. cbv zeta. rewrite Hok.
  apply env_lookup_put_same.
Qed.

Lemma env_get_set_other : forall env k v k',
  c_string k' <> c_string k -> env_get (env_set env k v) k' = env_get env k'.
Proof.
  intros env k v k' Hne. unfold env_get, env_set. cbv zeta.
  destruct (setenv_ok (c_string k)); [|reflexivity].
  now apply env_lookup_put_other.
Qed.

Lemma set_field_other : forall md f name env k,
  c_string k <> c_string name ->
  env_get (set_field md f name env) k = env_get env k.
Proof.
  intros md f name env k Hne. unfold set_field.
  destruct (truthy_opt _); [now apply env_get_set_other | reflexivity].
Qed.

Lemma append_cancel_l : forall p a b, (p ++ a = p ++ b)%string -> a = b.
Proof.
  induction p as [|c p IH]; intros a b H; [exact H|].
  injection H as H. now apply IH.
Qed.

Lemma c_string_app : forall p s,
  has_char NUL p = false -> c_string (p ++ s) = (p ++ c_string s)%string.
Proof.
  induction p as [|c p IH]; intros s H; [reflexivity|].
  cbn [has_char] in H. apply orb_false_iff in H as [Hc Hp].
  cbn [append c_string]. rewrite Ascii.eqb_sym, Hc. now rewrite IH.
Qed.

Lemma has_char_app : forall c p s,
  has_char c (p ++ s) = has_char c p || has_char c s.
Proof.
  induction p as [|a p IH]; intros s; [reflexivity|].
  cbn [append has_char]. rewrite IH. apply orb_assoc.
Qed.

Lemma has_char_c_string_app : forall c p s,
  has_char c (c_string p) = true -> has_char c (c_string (p ++ s)) = true.
Proof.
  induction p as [|a p IH]; intros s H; [discriminate H|].
  cbn [append c_string] in *.
  destruct (Ascii.eqb a NUL); [discriminate H|].
  cbn [has_char] in *. apply orb_true_iff in H as [H|H].
  - now rewrite H.
  - rewrite (IH s H). apply orb_true_r.
Qed.

Lemma default_names_NoDup : forall p,
  has_char NUL p = false ->
  NoDup (map c_string (names_list (env_names p []))).
Proof.
  intros p Hp. unfold names_list, env_names.
  cbn [str_get name_or map n_isEC2 n_imdsVersion n_instanceId n_instanceType
       n_amiId n_localIpv4 n_publicIpv4].
  rewrite !c_string_app by exact Hp. simpl c_string.
  repeat constructor; simpl;
    intros Hin; repeat destruct Hin as [Hin|Hin]; try exact Hin;
    apply append_cancel_l in Hin; discriminate Hin.
Qed.

Lemma default_name_ok : forall p s,
  has_char NUL p = false -> has_char "="%char p = false ->
  s <> "" -> has_char NUL s = false -> has_char "="%char s = false ->
  setenv_ok (c_string (p ++ s)) = true.
Proof.
  intros p s Hp He Hs Hsn Hse.
  rewrite c_string_app by exact Hp.
  replace (c_string s) with s.
  2:{ clear -Hsn. induction s as [|c s IH]; [reflexivity|].
      cbn [has_char] in Hsn. apply orb_false_iff in Hsn as [Hc Hs].
      change (c_string (String c s))
        with (if Ascii.eqb c NUL then EmptyString else String c (c_string s)).
      rewrite Ascii.eqb_sym, Hc. now rewrite <- (IH Hs). }
  unfold setenv_ok. rewrite has_char_app, He, Hse. cbn [orb negb].
  destruct p as [|c p]; [|reflexivity].
  destruct s; [contradiction|reflexivity].
Qed.

Lemma apply_env_isEC2 : forall names result env,
  NoDup (map c_string (names_list names)) ->
  setenv_ok (c_string (n_isEC2 names)) = true ->
  env_get (apply_env names result env) (n_isEC2 names) =
  Some (if truthy_opt (prop result "isEC2") then "true" else "false").
Proof.
  intros names result env Hnd Hok.
  unfold names_list in Hnd. cbn [map] in Hnd.
  inversion Hnd as [|? ? Hn0 _]; subst. simpl in Hn0.
  unfold apply_env.
  destruct (truthy_opt (prop result "isEC2")).
  2:{ now rewrite env_get_set_same. }
  destruct (truthy_opt (prop result "metadata"));
    rewrite ?set_field_other by intuition.
  all: rewrite env_get_set_other by intuition; now rewrite env_get_set_same.
Qed.

Lemma apply_env_version : forall names result env,
  NoDup (map c_string (names_list names)) ->
  setenv_ok (c_string (n_imdsVersion names)) = true ->
  truthy_opt (prop result "isEC2") = true ->
  env_get (apply_env names result env) (n_imdsVersion names) =
  Some (c_string (js_to_string (prop result "imdsVersion"))).
Proof.
  intros names result env Hnd Hok Ht.
  unfold names_list in Hnd. cbn [map] in Hnd.
  inversion Hnd as [|? ? _ Hnd1]; subst.
  inversion Hnd1 as [|? ? Hn1 _]; subst. simpl in Hn1.
  unfold apply_env. rewrite Ht.
  destruct (truthy_opt (prop result "metadata"));
    rewrite ?set_field_other by intuition; now apply env_get_set_same.
Qed.

(** A refused name leaves the environment as it is. *)
Lemma apply_env_refused : forall names result env,
  (forall n, In n (names_list names) -> setenv_ok (c_string n) = false) ->
  apply_env names result env = env.
Proof.
  intros names result env Hall.
  assert (Hs : forall n v, In n (names_list names) -> env_set env n v = env).
  { intros n v Hn. unfold env_set. cbv zeta. now rewrite (Hall n Hn). }
  assert (Hf : forall md f n, In n (names_list names) ->
                 set_field md f n env = env).
  { intros md f n Hn. unfold set_field.
    destruct (truthy_opt _); [now apply Hs | reflexivity]. }
  unfold names_list in *.
  unfold apply_env. cbv zeta.
  rewrite Hs by (simpl; tauto).
  destruct (truthy_opt (prop result "isEC2")); [|reflexivity].
  rewrite Hs by (simpl; tauto).
  destruct (truthy_opt (prop result "metadata")); [|reflexivity].
  rewrite !Hf by (simpl; tauto). reflexivity.
Qed.

(** The results [detectEC2] can return. *)
Lemma detect_shape : forall T o h,
  fst (detectEC2 T o h) = Ok (JObj [("isEC2", JBool false)]) \/
  exists v h', (v = "v1" \/ v = "v2") /\
    fst (detectEC2 T o h) =
    Ok (JObj ([("isEC2", JBool true); ("imdsVersion", JStr v)] ++
              if opt_verbose o
              then [("metadata", metadata_spec T h' (effective_timeout o))]
              else [])%list).
Proof.
  intros T o h. set (t := effective_timeout o).
  assert (Hs : forall v h1, fst (succeed T v t (opt_verbose o) h1) =
    Ok (JObj ([("isEC2", JBool true); ("imdsVersion", JStr v)] ++
              if opt_verbose o then [("metadata", metadata_spec T h1 t)]
              else [])%list)).
  { intros v h1. destruct (opt_verbose o);
      [rewrite succeed_verbose | rewrite succeed_quiet]; reflexivity. }
  destruct (tryIMDSv2_cases T t h)
    as [(tok & b' & _ & _ & _ & Hv2)|(h1 & _ & Hv2)].
  - right. rewrite (detect_v2 T o _ _ Hv2). fold t.
    eexists "v2", _. split; [now right | apply Hs].
  - assert (Hv1 : exists v1,
      tryIMDSv1 T t h1 = (Ok v1, (h1 ++ [get_root [] t])%list))
      by (eexists; apply tryIMDSv1_spec).
    destruct Hv1 as [[|] Hv1].
    + right. rewrite (detect_v1 T o _ _ _ Hv2 Hv1). fold t.
      eexists "v1", _. split; [now left | apply Hs].
    + left. now rewrite (detect_none T o _ _ _ Hv2 Hv1).
Qed.

Lemma setEnv_unfold : forall T o env h,
  fst (setEnv T o env h) =
  match fst (detectEC2 T (mkOptions (Some (match se_timeout o with
                                             | Some t => t | None => 1000 end))
                                     (match se_includeMetadata o with
                                      | Some b => b | None => true end)) h) with
  | Ok result =>
      Ok (result, apply_env (env_names (match se_prefix o with
                                        | Some p => p | None => "EC2_" end)
                                       (se_envNames o)) result env)
  | Thrown e => Thrown e
  end.
Proof.
  intros T o env h. unfold setEnv, bind, ret.
  destruct (detectEC2 _ _ h) as [[] ?]; reflexivity.
Qed.

(** With no [envNames] overrides and a prefix holding neither NUL nor
    ['='], after [setEnv] the variable [<prefix>IS_EC2] holds "true" or
    "false" as the returned [isEC2] says, and on EC2 [<prefix>IMDS_VERSION]
    holds "v1" or "v2"; no metadata variable can overwrite them. *)
Theorem setEnv_detection_vars : forall T o env h,
  se_envNames o = [] ->
  has_char NUL (match se_prefix o with Some p => p | None => "EC2_" end) = false ->
  has_char "="%char (match se_prefix o with Some p => p | None => "EC2_" end) = false ->
  exists result env', fst (setEnv T o env h) = Ok (result, env') /\
    env_get env' ((match se_prefix o with Some p => p | None => "EC2_" end)
                  ++ "IS_EC2") =
      Some (if truthy_opt (prop result "isEC2") then "true" else "false") /\
    (truthy_opt (prop result "isEC2") = true ->
     env_get env' ((match se_prefix o with Some p => p | None => "EC2_" end)
                   ++ "IMDS_VERSION") = Some "v1" \/
     env_get env' ((match se_prefix o with Some p => p | None => "EC2_" end)
                   ++ "IMDS_VERSION") = Some "v2").
Proof.
  intros T o env h Hn. rewrite setEnv_unfold, Hn.
  set (p := match se_prefix o with Some p => p | None => "EC2_" end).
  intros Hp He.
  set (o' := mkOptions _ _).
  pose proof (default_names_NoDup p Hp) as Hnd.
  assert (Hok1 : setenv_ok (c_string (n_isEC2 (env_names p []))) = true)
    by (apply default_name_ok; easy).
  assert (Hok2 : setenv_ok (c_string (n_imdsVersion (env_names p []))) = true)
    by (apply default_name_ok; easy).
  destruct (detect_shape T o' h) as [E|(v & h' & Hv & E)]; rewrite E;
    eexists _, _; (split; [reflexivity|]).
  - pose proof (apply_env_isEC2 (env_names p []) (JObj [("isEC2", JBool false)])
                  env Hnd Hok1) as H1.
    cbn [n_isEC2 env_names str_get name_or] in H1. rewrite H1.
    split; [reflexivity|]. intros Ht. discriminate Ht.
  - set (r := JObj _).
    assert (Ht : truthy_opt (prop r "isEC2") = true) by reflexivity.
    pose proof (apply_env_isEC2 (env_names p []) r env Hnd Hok1) as H1.
    pose proof (apply_env_version (env_names p []) r env Hnd Hok2 Ht) as H2.
    cbn [n_isEC2 n_imdsVersion env_names str_get name_or] in H1, H2.
    rewrite H1, Ht. split; [reflexivity|]. intros _. rewrite H2.
    destruct Hv as [->| ->]; [left|right]; reflexivity.
Qed.

Lemma setEnv_detection_vars_witness :
  se_envNames (mkSetEnvOptions None (Some "AWS_") [] None) = [] /\
  has_char NUL "AWS_" = false /\ has_char "="%char "AWS_" = false /\
  exists result env',
    fst (setEnv scenario_transport (mkSetEnvOptions None (Some "AWS_") [] None)
           [] []) = Ok (result, env') /\
    env_get env' ("AWS_" ++ "IS_EC2") =
      Some (if truthy_opt (prop result "isEC2") then "true" else "false") /\
    (truthy_opt (prop result "isEC2") = true ->
     env_get env' ("AWS_" ++ "IMDS_VERSION") = Some "v1" \/
     env_get env' ("AWS_" ++ "IMDS_VERSION") = Some "v2").
Proof.
  split; [reflexivity|]. split; [reflexivity|]. split; [reflexivity|].
  exact (setEnv_detection_vars scenario_transport
           (mkSetEnvOptions None (Some "AWS_") [] None) [] [] eq_refl eq_refl eq_refl).
Defined.

(** With no [envNames] overrides and a prefix whose C string holds ['='],
    every assignment of [setEnv] is refused by [setenv]: the environment is
    left exactly as it was, although the result may report EC2. *)
Theorem setEnv_prefix_with_equals : forall T o env h,
  se_envNames o = [] ->
  has_char "="%char
    (c_string (match se_prefix o with Some p => p | None => "EC2_" end)) = true ->
  exists result, fst (setEnv T o env h) = Ok (result, env).
Proof.
  intros T o env h Hn. rewrite setEnv_unfold, Hn.
  set (p := match se_prefix o with Some p => p | None => "EC2_" end).
  intros He. set (o' := mkOptions _ _).
  assert (Hall : forall n, In n (names_list (env_names p [])) ->
                   setenv_ok (c_string n) = false).
  { intros n Hin. unfold names_list, env_names in Hin.
    cbn [str_get name_or] in Hin.
    assert (Hn' : has_char "="%char (c_string n) = true)
      by (repeat destruct Hin as [<-|Hin]; try destruct Hin;
          now apply has_char_c_string_app).
    unfold setenv_ok. rewrite Hn'. apply andb_false_r. }
  destruct (detect_shape T o' h) as [E|(v & h' & Hv & E)]; rewrite E;
    eexists; rewrite apply_env_refused by exact Hall; reflexivity.
Qed.

Lemma setEnv_prefix_with_equals_witness :
  se_envNames (mkSetEnvOptions None (Some "A=") [] None) = [] /\
  has_char "="%char (c_string "A=") = true /\
  exists result,
    fst (setEnv scenario_transport (mkSetEnvOptions None (Some "A=") [] None)
           [("HOME", "/root")] []) = Ok (result, [("HOME", "/root")]).
Proof.
  split; [reflexivity|]. split; [reflexivity|].
  exact (setEnv_prefix_with_equals scenario_transport
           (mkSetEnvOptions None (Some "A=") [] None) [("HOME", "/root")] []
           eq_refl eq_refl).
Defined.

(** With [includeMetadata: false], [setEnv] writes exactly [IS_EC2] (as
    "false"), or [IS_EC2] as "true" and then [IMDS_VERSION] as "v1" or
    "v2", under the names chosen by [prefix] and [envNames]. *)
Theorem setEnv_without_metadata : forall T o env h,
  se_includeMetadata o = Some false ->
  exists result env', fst (setEnv T o env h) = Ok (result, env') /\
    let names := env_names (match se_prefix o with Some p => p | None => "EC2_" end)
                           (se_envNames o) in
    (env' = env_set env (n_isEC2 names) "false" \/
     exists v, (v = "v1" \/ v = "v2") /\
       env' = env_set (env_set env (n_isEC2 names) "true") (n_imdsVersion names) v).
Proof.
  intros T o env h Hi. rewrite setEnv_unfold, Hi.
  set (o' := mkOptions _ false).
  destruct (detect_shape T o' h) as [E|(v & h' & Hv & E)]; rewrite E;
    eexists _, _; (split; [reflexivity|]).
  - left. reflexivity.
  - right. exists v. split; [exact Hv|]. reflexivity.
Qed.

Lemma setEnv_without_metadata_witness :
  se_includeMetadata (mkSetEnvOptions None None [("isEC2", "ON_EC2")] (Some false))
    = Some false /\
  exists result env',
    fst (setEnv scenario_transport
           (mkSetEnvOptions None None [("isEC2", "ON_EC2")] (Some false)) [] [])
      = Ok (result, env') /\
    let names := env_names "EC2_" [("isEC2", "ON_EC2")] in
    (env' = env_set [] (n_isEC2 names) "false" \/
     exists v, (v = "v1" \/ v = "v2") /\
       env' = env_set (env_set [] (n_isEC2 names) "true") (n_imdsVersion names) v).
Proof.
  split; [reflexivity|].
  exact (setEnv_without_metadata scenario_transport
           (mkSetEnvOptions None None [("isEC2", "ON_EC2")] (Some false)) [] []
           eq_refl).
Defined.

(** *** The synchronous model is the settled case of [Async] *)

Lemma agree_ret : forall A (a : A), Async.agree (Async.aret a) (ret a).
Proof. intros A a h. reflexivity. Qed.

Lemma agree_bind : forall A B (am : Async.AM A) (m : M A)
    (af : A -> Async.AM B) (f : A -> M B),
  Async.agree am m -> (forall a, Async.agree (af a) (f a)) ->
  Async.agree (Async.abind am af) (bind m f).
Proof.
  intros A B am m af f Hm Hf h. unfold Async.abind, bind. rewrite Hm.
  destruct (m h) as [[a|e] h']; cbn [fst snd]; [apply Hf | reflexivity].
Qed.

Lemma agree_try : forall A (am ah : Async.AM A) (m mh : M A),
  Async.agree am m -> Async.agree ah mh ->
  Async.agree (Async.atry_catch am ah) (try_catch m mh).
Proof.
  intros A am ah m mh Hm Hh h. unfold Async.atry_catch, try_catch. rewrite Hm.
  destruct (m h) as [[a|e] h']; cbn [fst snd]; [reflexivity | apply Hh].
Qed.

Section Settled.

Variable W : Async.WireTransport.
Hypothesis HW : Async.settles W.

Lemma agree_makeRequest : forall p t hd meth,
  Async.agree (Async.makeRequest W p t hd meth)
              (makeRequest (Async.coarse W) p t hd meth).
Proof.
  intros p t hd meth h. unfold Async.makeRequest, makeRequest, Async.coarse.
  cbv zeta. specialize (HW h (mkRequest p t hd meth)).
  destruct (Async.promise_of _); [contradiction | reflexivity | reflexivity].
Qed.

Ltac agree_tac :=
  repeat first
    [ apply agree_ret
    | apply agree_makeRequest
    | apply agree_try
    | apply agree_bind
    | match goal with
      | |- Async.agree (if ?b then _ else _) (if ?b then _ else _) => destruct b
      end
    | intros ? ].

Lemma agree_fetchFields : forall t hd fs md,
  Async.agree (Async.fetchFields W t hd fs md) (fetchFields (Async.coarse W) t hd fs md).
Proof.
  intros t hd fs. induction fs as [|f fs IH]; intros md.
  - apply agree_ret.
  - cbn [Async.fetchFields fetchFields].
    apply agree_bind; [agree_tac | intros md'; apply IH].
Qed.

Lemma agree_getMetadata : forall t,
  Async.agree (Async.getMetadata W t) (getMetadata (Async.coarse W) t).
Proof.
  intros t. unfold Async.getMetadata, getMetadata, Async.getToken, getToken.
  cbv zeta. apply agree_try; [|apply agree_ret].
  apply agree_bind; [agree_tac|]. intros token.
  apply agree_bind; [apply agree_fetchFields | intros md; apply agree_ret].
Qed.

Lemma agree_succeed : forall v t verbose,
  Async.agree (Async.succeed W v t verbose) (succeed (Async.coarse W) v t verbose).
Proof.
  intros v t [|]; unfold Async.succeed, succeed; cbv zeta.
  - apply agree_bind; [apply agree_getMetadata | intros m; apply agree_ret].
  - apply agree_ret.
Qed.

Lemma agree_detectEC2 : forall o,
  Async.agree (Async.detectEC2 W o) (detectEC2 (Async.coarse W) o).
Proof.
  intros o. unfold Async.detectEC2, detectEC2. cbv zeta.
  apply agree_bind.
  - unfold Async.tryIMDSv2, tryIMDSv2. agree_tac.
  - intros [|].
    + apply agree_succeed.
    + apply agree_bind.
      * unfold Async.tryIMDSv1, tryIMDSv1. agree_tac.
      * intros [|]; [apply agree_succeed | apply agree_ret].
Qed.

End Settled.

Lemma promise_closed_after_headers : forall s chunks,
  Async.promise_of (Async.closed_after_headers s chunks) = Async.Pending.
Proof.
  intros s chunks. unfold Async.promise_of, Async.closed_after_headers.
  rewrite !fold_left_app.
  cbn [fold_left Async.on_event Async.rs_status Async.rs_body Async.rs_promise].
  assert (Hd : forall b, exists b',
    fold_left Async.on_event (map Async.ev_data chunks)
      (Async.mkReqState (Some s) b Async.Pending) =
    Async.mkReqState (Some s) b' Async.Pending).
  { induction chunks as [|c cs IHcs]; intros b.
    - exists b. reflexivity.
    - cbn [map fold_left Async.on_event Async.rs_status Async.rs_body
           Async.rs_promise].
      apply IHcs. }
  destruct (Hd "") as [b' ->]. reflexivity.
Qed.

(** C7 (code bug): when every promise of [makeRequest] settles,
    [detectEC2] returns, exactly as the synchronous model computes, an
    object carrying a boolean [isEC2]; but when the connection of the
    first token PUT is closed after the response headers, the promise of
    [makeRequest] never settles and [detectEC2] never returns a result nor
    raises, so the detector does not always terminate by returning. *)
Theorem C7_detect_hangs :
  (forall W o h, Async.settles W ->
     Async.detectEC2 W o h =
       (Some (fst (detectEC2 (Async.coarse W) o h)),
        snd (detectEC2 (Async.coarse W) o h)) /\
     exists r b, fst (Async.detectEC2 W o h) = Some (Ok (JObj r)) /\
       js_get r "isEC2" = Some (JBool b)) /\
  (forall W o h s chunks,
     W h (put_token (effective_timeout o)) = Async.closed_after_headers s chunks ->
     fst (Async.detectEC2 W o h) = None) /\
  fst (Async.detectEC2 Async.aborted_put_transport (mkOptions None false) []) = None.
Proof.
  assert (Hhang : forall W o h s chunks,
     W h (put_token (effective_timeout o)) = Async.closed_after_headers s chunks ->
     fst (Async.detectEC2 W o h) = None).
  { intros W o h s chunks HW.
    unfold Async.detectEC2, Async.tryIMDSv2, Async.abind, Async.atry_catch,
      Async.makeRequest.
    cbv zeta.
    change (mkRequest TOKEN_PATH (effective_timeout o) [(TTL_HEADER, "21600")] "PUT")
      with (put_token (effective_timeout o)).
    rewrite HW, promise_closed_after_headers. reflexivity. }
  split; [|split].
  - intros W o h HW. rewrite (agree_detectEC2 W HW o h). split; [reflexivity|].
    cbn [fst]. destruct (detect_shape (Async.coarse W) o h) as [E|(v & h' & _ & E)];
      rewrite E; eexists _, _; split; reflexivity.
  - exact Hhang.
  - apply (Hhang _ _ _ 200 ["AQAE"]). reflexivity.
Qed.
